(** * demov1.1.py: remote-controlled looping video player

    A shallow embedding of [demov1.1.py].  The script has three layers:

    - the [VideoPlayer] methods that run on the GUI thread
      ([play_in_main_thread], [change_video_in_main_thread],
      [handle_media_end], ...), which mutate the player object;
    - the any-thread methods ([play], [pause], [stop], [close],
      [change_video]), which only emit a Qt signal;
    - the Flask handlers, which read the global [current_player], the
      request body and the file system, and call the any-thread methods.

    The player object is a record and every method is a function from the
    record to the updated record (explicit state passing).  Python
    exceptions are values of [result].  The media library, the GUI toolkit
    and the file system are not part of the script: the media player is a
    small state machine ([Vlc]), a window is a record ([Qt]), and what the
    operating system answers (which paths exist, [os.path.basename] of the
    platform) is supplied with every call ([Env]), since files can appear
    and disappear between two calls.  Library calls are taken to
    complete normally, so the two [except Exception] handlers of the
    script, which only log and return [False], are never entered here.
    [print] statements are dropped. *)

From Stdlib Require Import Ascii String List ZArith Bool Lia DecimalString.
Import ListNotations.

Set Warnings "-register-all".

Local Open Scope list_scope.
Local Open Scope string_scope.

(** ** Python exceptions and results *)

Inductive exn : Type :=
| FileNotFoundError
| IndexError
| KeyError
| TypeError
| AttributeError
| OverflowError
| BadRequest.

Inductive result (A : Type) : Type :=
| Ok (a : A)
| Raise (e : exn).

Arguments Ok {A} a.
Arguments Raise {A} e.

Definition bind {A B : Type} (m : result A) (k : A -> result B) : result B :=
  match m with
  | Ok a => k a
  | Raise e => Raise e
  end.

Notation "x <- m ;; k" := (bind m (fun x => k))
  (at level 61, m at next level, right associativity).

(** [posixpath.basename], the [os.path.basename] of the POSIX platforms:
    what follows the last slash. *)
Fixpoint basename_from (s acc : string) : string :=
  match s with
  | EmptyString => acc
  | String c rest =>
      if Ascii.eqb c "/"%char
      then basename_from rest EmptyString
      else basename_from rest (acc ++ String c EmptyString)
  end.

Definition posixpath_basename (s : string) : string := basename_from s EmptyString.

(** ** Parsed request bodies *)

Module Json.

(** The Python value [json.loads] yields.  An object is the list of its
    items (keys distinct, as in a [dict]); [JNull] is [None]. *)
Inductive json : Type :=
| JNull
| JBool (b : bool)
| JInt (n : Z)
| JFloat (repr : string)
| JString (s : string)
| JList (l : list json)
| JObject (d : list (string * json)).

Fixpoint lookup (k : string) (d : list (string * json)) : option json :=
  match d with
  | [] => None
  | (k', v) :: rest => if String.eqb k' k then Some v else lookup k rest
  end.

(** [data.get(k)]: only a dict has [get]; a missing key gives [None]. *)
Definition get (data : json) (k : string) : result json :=
  match data with
  | JObject d =>
      match lookup k d with
      | Some v => Ok v
      | None => Ok JNull
      end
  | _ => Raise AttributeError
  end.

Definition is_string (k : string) (v : json) : bool :=
  match v with
  | JString s => String.eqb s k
  | _ => false
  end.

Definition substring_of (k s : string) : bool :=
  match String.index 0 k s with
  | Some _ => true
  | None => false
  end.

(** [k in data] for a string [k]: key of a dict, element of a list,
    substring of a string; the other values are not iterable. *)
Definition contains (k : string) (data : json) : result bool :=
  match data with
  | JObject d =>
      match lookup k d with
      | Some _ => Ok true
      | None => Ok false
      end
  | JList l => Ok (existsb (is_string k) l)
  | JString s => Ok (substring_of k s)
  | _ => Raise TypeError
  end.

(** [data[k]] for a string [k]. *)
Definition getitem (data : json) (k : string) : result json :=
  match data with
  | JObject d =>
      match lookup k d with
      | Some v => Ok v
      | None => Raise KeyError
      end
  | _ => Raise TypeError
  end.

(** [xs[i]] on a Python list: negative indices count from the end, a
    [bool] is an [int], anything else is not an index. *)
Definition index_at (xs : list string) (n : Z) : result string :=
  let len := Z.of_nat (length xs) in
  let i := if (n <? 0)%Z then (n + len)%Z else n in
  if ((0 <=? i) && (i <? len))%Z%bool
  then match nth_error xs (Z.to_nat i) with
       | Some x => Ok x
       | None => Raise IndexError
       end
  else Raise IndexError.

Definition list_getitem (xs : list string) (i : json) : result string :=
  match i with
  | JInt n => index_at xs n
  | JBool b => index_at xs (if b then 1%Z else 0%Z)
  | _ => Raise TypeError
  end.

End Json.

(** ** The media library *)

Module Vlc.

(** [vlc.State]. *)
Inductive State : Type :=
| NothingSpecial
| Opening
| Buffering
| Playing
| Paused
| Stopped
| Ended
| Error.

Definition State_eqb (a b : State) : bool :=
  match a, b with
  | NothingSpecial, NothingSpecial
  | Opening, Opening
  | Buffering, Buffering
  | Playing, Playing
  | Paused, Paused
  | Stopped, Stopped
  | Ended, Ended
  | Error, Error => true
  | _, _ => false
  end.

(** A media player: the medium it holds (by path) and its state. *)
Record MediaPlayer : Type := mkMediaPlayer {
  media : option string;
  state : State
}.

Definition media_player_new : MediaPlayer :=
  {| media := None; state := NothingSpecial |}.

Definition get_state (mp : MediaPlayer) : State := state mp.

Definition is_playing (mp : MediaPlayer) : bool :=
  State_eqb (state mp) Playing.

Definition set_media (m : string) (mp : MediaPlayer) : MediaPlayer :=
  {| media := Some m; state := state mp |}.

(** [play()] starts the loaded medium; without one it does nothing. *)
Definition play (mp : MediaPlayer) : MediaPlayer :=
  match media mp with
  | Some m => {| media := Some m; state := Playing |}
  | None => mp
  end.

(** [pause()] toggles between playing and paused. *)
Definition pause (mp : MediaPlayer) : MediaPlayer :=
  match state mp with
  | Playing => {| media := media mp; state := Paused |}
  | Paused => {| media := media mp; state := Playing |}
  | _ => mp
  end.

Definition stop (mp : MediaPlayer) : MediaPlayer :=
  {| media := media mp; state := Stopped |}.

(** The library reaching the end of the medium. *)
Definition end_reached (mp : MediaPlayer) : MediaPlayer :=
  match state mp with
  | Playing => {| media := media mp; state := Ended |}
  | _ => mp
  end.

End Vlc.

(** ** The GUI toolkit *)

Module Qt.

Record QFrame : Type := mkQFrame {
  windowTitle : string;
  fullScreen : bool;
  closed : bool
}.

Definition setWindowTitle (t : string) (f : QFrame) : QFrame :=
  {| windowTitle := t; fullScreen := fullScreen f; closed := closed f |}.

Definition showFullScreen (f : QFrame) : QFrame :=
  {| windowTitle := windowTitle f; fullScreen := true; closed := closed f |}.

Definition close (f : QFrame) : QFrame :=
  {| windowTitle := windowTitle f; fullScreen := fullScreen f; closed := true |}.

Definition new_frame : QFrame :=
  {| windowTitle := ""; fullScreen := false; closed := false |}.

Record QApplication : Type := mkQApplication {
  quit_requested : bool
}.

Definition new_application : QApplication := {| quit_requested := false |}.

Definition quit (a : QApplication) : QApplication := {| quit_requested := true |}.

End Qt.

(** ** The environment of a call *)

(** What a call sees of the operating system: which paths exist, which
    file descriptors are open ([os.path.exists] also takes an integer),
    and [os.path.basename], which is [posixpath.basename] or
    [ntpath.basename] according to the platform. *)
Record Env : Type := mkEnv {
  path_exists : string -> bool;
  fd_open : Z -> bool;
  os_path_basename : string -> string
}.

(** The signals of [PlayerSignals]. *)
Inductive signal : Type :=
| change_video_signal (new_path : string)
| pause_signal
| play_signal
| stop_signal
| close_signal.

(** ** The player object *)

(** The fields of [VideoPlayer].  [event_manager] records whether
    [on_media_end] is attached to the end-of-media event,
    [signals_connected] whether [setup_signals] has connected the slots,
    [poll_timer] whether the polling timer runs.  The constant [instance]
    is left out. *)
Record VideoPlayer : Type := mkVideoPlayer {
  default_video : string;
  video_path : string;
  mediaplayer : Vlc.MediaPlayer;
  app : option Qt.QApplication;
  video_frame : option Qt.QFrame;
  is_running : bool;
  is_default_video : bool;
  event_manager : bool;
  signals_connected : bool;
  poll_timer : bool
}.

Definition set_video_path (v : string) (p : VideoPlayer) : VideoPlayer :=
  mkVideoPlayer (default_video p) v (mediaplayer p) (app p) (video_frame p)
    (is_running p) (is_default_video p) (event_manager p)
    (signals_connected p) (poll_timer p).

Definition set_mediaplayer (m : Vlc.MediaPlayer) (p : VideoPlayer) : VideoPlayer :=
  mkVideoPlayer (default_video p) (video_path p) m (app p) (video_frame p)
    (is_running p) (is_default_video p) (event_manager p)
    (signals_connected p) (poll_timer p).

Definition set_app (a : option Qt.QApplication) (p : VideoPlayer) : VideoPlayer :=
  mkVideoPlayer (default_video p) (video_path p) (mediaplayer p) a (video_frame p)
    (is_running p) (is_default_video p) (event_manager p)
    (signals_connected p) (poll_timer p).

Definition set_video_frame (f : option Qt.QFrame) (p : VideoPlayer) : VideoPlayer :=
  mkVideoPlayer (default_video p) (video_path p) (mediaplayer p) (app p) f
    (is_running p) (is_default_video p) (event_manager p)
    (signals_connected p) (poll_timer p).

Definition set_is_running (b : bool) (p : VideoPlayer) : VideoPlayer :=
  mkVideoPlayer (default_video p) (video_path p) (mediaplayer p) (app p) (video_frame p)
    b (is_default_video p) (event_manager p)
    (signals_connected p) (poll_timer p).

Definition set_is_default_video (b : bool) (p : VideoPlayer) : VideoPlayer :=
  mkVideoPlayer (default_video p) (video_path p) (mediaplayer p) (app p) (video_frame p)
    (is_running p) b (event_manager p)
    (signals_connected p) (poll_timer p).

Definition set_event_manager (b : bool) (p : VideoPlayer) : VideoPlayer :=
  mkVideoPlayer (default_video p) (video_path p) (mediaplayer p) (app p) (video_frame p)
    (is_running p) (is_default_video p) b
    (signals_connected p) (poll_timer p).

Definition set_signals_connected (b : bool) (p : VideoPlayer) : VideoPlayer :=
  mkVideoPlayer (default_video p) (video_path p) (mediaplayer p) (app p) (video_frame p)
    (is_running p) (is_default_video p) (event_manager p)
    b (poll_timer p).

Definition set_poll_timer (b : bool) (p : VideoPlayer) : VideoPlayer :=
  mkVideoPlayer (default_video p) (video_path p) (mediaplayer p) (app p) (video_frame p)
    (is_running p) (is_default_video p) (event_manager p)
    (signals_connected p) b.

(** [VideoPlayer.__init__]. *)
Definition __init__ (env : Env) (path : string) : result VideoPlayer :=
  if negb (path_exists env path)
  then Raise FileNotFoundError
  else Ok {| default_video := path;
             video_path := path;
             mediaplayer := Vlc.media_player_new;
             app := None;
             video_frame := None;
             is_running := false;
             is_default_video := true;
             event_manager := false;
             signals_connected := false;
             poll_timer := false |}.

(** *** Methods of the GUI thread *)

Definition setup_event_manager (p : VideoPlayer) : VideoPlayer :=
  set_event_manager true p.

Definition window_title (env : Env) (p : VideoPlayer) : string :=
  let title_prefix := if is_default_video p then "[DEFAULT] " else "" in
  title_prefix ++ "Video Player - " ++ os_path_basename env (video_path p).

(** [play_in_main_thread]: load [video_path] as a new medium, attach the
    end-of-media event again, start playback, retitle the window. *)
Definition play_in_main_thread (env : Env) (p : VideoPlayer) : bool * VideoPlayer :=
  let media := video_path p in
  let p1 := set_mediaplayer (Vlc.set_media media (mediaplayer p)) p in
  let p2 := setup_event_manager p1 in
  let p3 := set_mediaplayer (Vlc.play (mediaplayer p2)) p2 in
  let p4 := match video_frame p3 with
            | Some f =>
                set_video_frame (Some (Qt.setWindowTitle (window_title env p3) f)) p3
            | None => p3
            end in
  (true, p4).

Definition change_video_in_main_thread (env : Env) (new_path : string)
    (p : VideoPlayer) : bool * VideoPlayer :=
  if path_exists env new_path then
    let p1 := set_video_path new_path p in
    let p2 := set_is_default_video (String.eqb new_path (default_video p1)) p1 in
    let p3 := if Vlc.is_playing (mediaplayer p2)
              then set_mediaplayer (Vlc.stop (mediaplayer p2)) p2
              else p2 in
    let p4 := snd (play_in_main_thread env p3) in
    (true, p4)
  else (false, p).

Definition handle_media_end (env : Env) (p : VideoPlayer) : VideoPlayer :=
  if negb (is_default_video p) then
    let p1 := set_is_default_video true p in
    snd (change_video_in_main_thread env (default_video p1) p1)
  else
    snd (play_in_main_thread env p).

Definition check_playback_status (env : Env) (p : VideoPlayer) : VideoPlayer :=
  let state := Vlc.get_state (mediaplayer p) in
  if Vlc.State_eqb state Vlc.Ended
  then handle_media_end env p
  else p.

Definition pause_in_main_thread (p : VideoPlayer) : bool * VideoPlayer :=
  if Vlc.is_playing (mediaplayer p)
  then (true, set_mediaplayer (Vlc.pause (mediaplayer p)) p)
  else (false, set_mediaplayer (Vlc.play (mediaplayer p)) p).

Definition stop_in_main_thread (p : VideoPlayer) : bool * VideoPlayer :=
  if Vlc.is_playing (mediaplayer p)
  then (true, set_mediaplayer (Vlc.stop (mediaplayer p)) p)
  else (false, p).

Definition close_in_main_thread (p : VideoPlayer) : bool * VideoPlayer :=
  let p1 := if Vlc.is_playing (mediaplayer p)
            then set_mediaplayer (Vlc.stop (mediaplayer p)) p
            else p in
  let p2 := match video_frame p1 with
            | Some f => set_video_frame (Some (Qt.close f)) p1
            | None => p1
            end in
  let p3 := match app p2 with
            | Some a =>
                if is_running p2 then set_app (Some (Qt.quit a)) p2 else p2
            | None => p2
            end in
  (true, p3).

Definition setup_signals (p : VideoPlayer) : VideoPlayer :=
  let p1 := set_signals_connected true p in
  let p2 := setup_event_manager p1 in
  set_poll_timer true p2.

(** [vlcApp] up to the call of [app.exec()], which runs the event loop
    ([main_step] below).  Handing the window to the media player does not
    change a modelled field. *)
Definition vlcApp (env : Env) (p : VideoPlayer) : VideoPlayer :=
  let p1 := set_app (Some Qt.new_application) p in
  let p2 := set_is_running true p1 in
  let p3 := setup_signals p2 in
  let frame := Qt.setWindowTitle
                 ("[DEFAULT] Video Player - " ++ os_path_basename env (video_path p3))
                 Qt.new_frame in
  let p4 := set_video_frame (Some (Qt.showFullScreen frame)) p3 in
  snd (play_in_main_thread env p4).

(** *** Methods of any thread *)

(** [Signal.emit] over a queued connection: the call is put on the event
    queue of the GUI thread; a signal that no slot is connected to yet is
    dropped. *)
Definition emit (s : signal) (p : VideoPlayer) (queue : list signal) : list signal :=
  if signals_connected p then (queue ++ [s])%list else queue.

(** An any-thread method takes the player object and the event queue and
    gives its return value with both as it leaves them. *)
Definition method (A : Type) : Type :=
  VideoPlayer -> list signal -> A * (VideoPlayer * list signal).

Definition change_video (new_path : string) : method bool :=
  fun p queue => (true, (p, emit (change_video_signal new_path) p queue)).

Definition play : method bool :=
  fun p queue => (true, (p, emit play_signal p queue)).

Definition pause : method bool :=
  fun p queue => (true, (p, emit pause_signal p queue)).

Definition stop : method bool :=
  fun p queue => (true, (p, emit stop_signal p queue)).

Definition close : method bool :=
  fun p queue => (true, (p, emit close_signal p queue)).

(** *** The event loop of the GUI thread *)

(** What the event loop runs: a queued signal reaches its slot, the
    polling timer fires, the timer set by [on_media_end] fires, or the
    media library reaches the end of the medium. *)
Inductive main_event : Type :=
| Deliver (s : signal)
| PollTimeout
| MediaEndTimeout
| MediaPlayerEndReached.

Definition slot (env : Env) (s : signal) (p : VideoPlayer) : VideoPlayer :=
  match s with
  | change_video_signal new_path => snd (change_video_in_main_thread env new_path p)
  | pause_signal => snd (pause_in_main_thread p)
  | play_signal => snd (play_in_main_thread env p)
  | stop_signal => snd (stop_in_main_thread p)
  | close_signal => snd (close_in_main_thread p)
  end.

Definition main_step (env : Env) (ev : main_event) (p : VideoPlayer) : VideoPlayer :=
  match ev with
  | Deliver s => slot env s p
  | PollTimeout => check_playback_status env p
  | MediaEndTimeout => handle_media_end env p
  | MediaPlayerEndReached => set_mediaplayer (Vlc.end_reached (mediaplayer p)) p
  end.

(** The states the event loop can be in: [vlcApp] has set the player up,
    and events have been handled since, each under the file system of
    its moment. *)
Inductive running : VideoPlayer -> Prop :=
| running_start : forall env env' path p,
    __init__ env path = Ok p -> running (vlcApp env' p)
| running_step : forall env ev p,
    running p -> running (main_step env ev p).

(** ** The HTTP API *)

(** The module globals read by the handlers.  They are computed from the
    directory listings when the module is loaded and never assigned again. *)
Record Globals : Type := mkGlobals {
  DEFAULT : list string;
  VIDEOS : list string;
  MAIN_PATH : string
}.

Definition DEFAULT_VIDEO (g : Globals) : result string :=
  first <- Json.index_at (DEFAULT g) 0 ;;
  Ok (MAIN_PATH g ++ "/default/" ++ first).

(** The state the handlers share with the GUI thread: the global
    [current_player] and the event queue of the GUI thread. *)
Record System : Type := mkSystem {
  current_player : option VideoPlayer;
  event_queue : list signal
}.

(** The body of a response: the object given to [jsonify], or a page the
    framework writes itself. *)
Inductive body : Type :=
| jsonify (d : list (string * string))
| error_page (name : string).

(** What a view function returns: a body, with or without a status. *)
Definition rv : Type := body * option Z.

Record response : Type := mkResponse {
  payload : body;
  status : Z
}.

Fixpoint field (k : string) (d : list (string * string)) : option string :=
  match d with
  | [] => None
  | (k', v) :: rest => if String.eqb k' k then Some v else field k rest
  end.

(** An error payload: a JSON object with an ["error"] member or with
    ["status"] set to ["error"]. *)
Definition is_error_payload (b : body) : bool :=
  match b with
  | jsonify d =>
      match field "error" d, field "status" d with
      | Some _, _ => true
      | None, Some s => String.eqb s "error"
      | None, None => false
      end
  | error_page _ => false
  end.

(** [request.get_json(force=True)]: [None] stands for a body that is not
    JSON, which raises. *)
Definition get_json (b : option Json.json) : result Json.json :=
  match b with
  | Some data => Ok data
  | None => Raise BadRequest
  end.

(** The range of a C [int], which a file descriptor has to fit. *)
Definition INT_MIN : Z := (-2147483648)%Z.
Definition INT_MAX : Z := 2147483647%Z.

(** [os.path.exists] on a value from the body: a string is a path; an
    integer (a [bool] is one) is a file descriptor, and one that does not
    fit a C [int] raises; nothing else is accepted. *)
Definition os_path_exists (env : Env) (v : Json.json) : result bool :=
  match v with
  | Json.JString s => Ok (path_exists env s)
  | Json.JInt n =>
      if ((INT_MIN <=? n) && (n <=? INT_MAX))%Z%bool
      then Ok (fd_open env n)
      else Raise OverflowError
  | Json.JBool b => Ok (fd_open env (if b then 1%Z else 0%Z))
  | _ => Raise TypeError
  end.

(** What an f-string shows of a value that has passed [os.path.exists]:
    a string as it is, an integer in decimal, a [bool] by its name. *)
Definition format_value (v : Json.json) : string :=
  match v with
  | Json.JString s => s
  | Json.JInt n => NilZero.string_of_int (Z.to_int n)
  | Json.JBool b => if b then "True" else "False"
  | _ => ""
  end.

(** What [Signal(str).emit] passes on: a string as it is; a value that is
    not a string reaches the slot as the empty string. *)
Definition signal_str (v : Json.json) : string :=
  match v with
  | Json.JString s => s
  | _ => ""
  end.

(** Calling an any-thread method on [current_player]. *)
Definition call {A : Type} (m : method A) (p : VideoPlayer) (s : System)
    : A * System :=
  let '(a, (p', q')) := m p (event_queue s) in
  (a, {| current_player := Some p'; event_queue := q' |}).

Definition view : Type := result rv * System.

Definition resume (s : System) : view :=
  match current_player s with
  | None => (Ok (jsonify [("error", "Video player not initialized")], Some 500%Z), s)
  | Some p =>
      let '(ok, s') := call play p s in
      if ok
      then (Ok (jsonify [("status", "success"); ("message", "Resuming")], None), s')
      else (Ok (jsonify [("error", "Failed to start playback")], None), s')
  end.

Definition changeVideo (g : Globals) (b : option Json.json) (s : System) : view :=
  match (data <- get_json b ;; _ <- Json.get data "serial-number" ;; Ok data) with
  | Raise _ => (Ok (jsonify [("error", "Invalid JSON data")], Some 400%Z), s)
  | Ok data =>
      match Json.get data "video-id" with
      | Raise e => (Raise e, s)
      | Ok id =>
          match current_player s with
          | Some p =>
              match Json.list_getitem (VIDEOS g) id with
              | Raise e => (Raise e, s)
              | Ok name =>
                  let '(ok, s') := call (change_video (MAIN_PATH g ++ "/" ++ name)) p s in
                  if ok
                  then (Ok (jsonify [("status", "success");
                                     ("message", "Change video request sent")], None), s')
                  else (Ok (jsonify [("error", "Failed to send change video request")],
                            None), s')
              end
          | None =>
              (Ok (jsonify [("error", "Video player not initialized")], Some 500%Z), s)
          end
      end
  end.

(** In [play_video] the value of ['video_path'] goes to [os.path.exists],
    to [change_video] and into the message as it came; when it is not a
    string (an open file descriptor), the signal carries the empty
    string. *)
Definition play_video (env : Env) (b : option Json.json) (s : System) : view :=
  let data := match get_json b with
              | Ok data => data
              | Raise _ => Json.JObject []
              end in
  match current_player s with
  | None => (Ok (jsonify [("error", "Video player not initialized")], Some 500%Z), s)
  | Some p =>
      match Json.contains "video_path" data with
      | Raise e => (Raise e, s)
      | Ok true =>
          match Json.getitem data "video_path" with
          | Raise e => (Raise e, s)
          | Ok video_path =>
              match os_path_exists env video_path with
              | Raise e => (Raise e, s)
              | Ok false => (Ok (jsonify [("error", "Video file not found")], Some 404%Z), s)
              | Ok true =>
                  let '(ok, s') := call (change_video (signal_str video_path)) p s in
                  if ok
                  then (Ok (jsonify [("status", "success");
                                     ("message",
                                      "Play request sent for " ++ format_value video_path)],
                            Some 200%Z), s')
                  else (Ok (jsonify [("error", "Failed to send play request")],
                            Some 500%Z), s')
              end
          end
      | Ok false =>
          let '(ok, s') := call play p s in
          if ok
          then (Ok (jsonify [("status", "success"); ("message", "Play request sent")],
                    Some 200%Z), s')
          else (Ok (jsonify [("error", "Failed to send play request")], Some 500%Z), s')
      end
  end.

Definition pause_video (s : System) : view :=
  match current_player s with
  | Some p =>
      let '(ok, s') := call pause p s in
      if ok
      then (Ok (jsonify [("status", "success"); ("message", "Pause request sent")],
                Some 200%Z), s')
      else (Ok (jsonify [("status", "error"); ("message", "Failed to send pause request")],
                Some 400%Z), s')
  | None =>
      (Ok (jsonify [("status", "error"); ("message", "Video player not initialized")],
           Some 500%Z), s)
  end.

Definition stop_video (s : System) : view :=
  match current_player s with
  | Some p =>
      let '(ok, s') := call stop p s in
      if ok
      then (Ok (jsonify [("status", "success"); ("message", "Stop request sent")],
                Some 200%Z), s')
      else (Ok (jsonify [("status", "error"); ("message", "Failed to send stop request")],
                Some 400%Z), s')
  | None =>
      (Ok (jsonify [("status", "error"); ("message", "Video player not initialized")],
           Some 500%Z), s)
  end.

Definition close_player (s : System) : view :=
  match current_player s with
  | Some p =>
      let '(ok, s') := call close p s in
      if ok
      then (Ok (jsonify [("status", "success"); ("message", "Close request sent")],
                Some 200%Z), s')
      else (Ok (jsonify [("status", "error"); ("message", "Failed to send close request")],
                Some 500%Z), s')
  | None =>
      (Ok (jsonify [("status", "error"); ("message", "Video player not initialized")],
           Some 500%Z), s)
  end.

Definition test_endpoint (s : System) : view :=
  (Ok (jsonify [("status", "API is running")], Some 200%Z), s).

(** *** The framework around the view functions *)

(** The two methods named by the routes. *)
Inductive http_method : Type :=
| GET
| POST.

Record request : Type := mkRequest {
  req_method : http_method;
  req_path : string;
  req_body : option Json.json
}.

(** A returned body without a status is sent with 200; an exception that
    leaves the view function is answered with the framework's 500 page. *)
Definition make_response (v : view) : response * System :=
  match fst v with
  | Ok (b, Some code) => ({| payload := b; status := code |}, snd v)
  | Ok (b, None) => ({| payload := b; status := 200 |}, snd v)
  | Raise _ => ({| payload := error_page "Internal Server Error"; status := 500 |}, snd v)
  end.

Definition method_not_allowed (s : System) : response * System :=
  ({| payload := error_page "Method Not Allowed"; status := 405 |}, s).

Definition not_found (s : System) : response * System :=
  ({| payload := error_page "Not Found"; status := 404 |}, s).

(** The routing table of the [@app.route] decorators. *)
Definition serve (g : Globals) (env : Env) (r : request) (s : System)
    : response * System :=
  let post (v : view) :=
    match req_method r with
    | POST => make_response v
    | GET => method_not_allowed s
    end in
  let path := req_path r in
  if String.eqb path "/resume" then post (resume s)
  else if String.eqb path "/changeVideo" then post (changeVideo g (req_body r) s)
  else if String.eqb path "/play" then post (play_video env (req_body r) s)
  else if String.eqb path "/pause" then post (pause_video s)
  else if String.eqb path "/stop" then post (stop_video s)
  else if String.eqb path "/close" then post (close_player s)
  else if String.eqb path "/test" then
    match req_method r with
    | GET => make_response (test_endpoint s)
    | POST => method_not_allowed s
    end
  else not_found s.


(** [main] before the threads start: the player is made for the default
    video and stored in [current_player]. *)
Definition main (g : Globals) (env : Env) : result System :=
  path <- DEFAULT_VIDEO g ;;
  p <- __init__ env path ;;
  Ok {| current_player := Some p; event_queue := [] |}.

(** ** Properties *)

(** The flag [is_default_video] says whether [video_path] is the default
    video. *)
Definition default_flag_agrees (p : VideoPlayer) : Prop :=
  is_default_video p = String.eqb (video_path p) (default_video p).

(** The player plays the medium at [path]. *)
Definition plays (path : string) (p : VideoPlayer) : Prop :=
  Vlc.media (mediaplayer p) = Some path /\
  Vlc.state (mediaplayer p) = Vlc.Playing.

(** The video-transition rule at the end of a medium, for the player [p]
    under the file system [env]: after a video other than the default, the
    player is on the default video and plays it, flag set; after the
    default video, the player plays the same video again. *)
Definition media_end_rule (env : Env) (p : VideoPlayer) : Prop :=
  let p' := handle_media_end env p in
  if is_default_video p
  then video_path p' = video_path p /\
       is_default_video p' = true /\
       plays (video_path p) p'
  else video_path p' = default_video p /\
       is_default_video p' = true /\
       plays (default_video p) p'.

(** A medium has been handed to the media player. *)
Definition media_loaded (p : VideoPlayer) : bool :=
  match Vlc.media (mediaplayer p) with
  | Some _ => true
  | None => false
  end.





Fixpoint pairs_eqb (a b : list (string * string)) : bool :=
  match a, b with
  | [], [] => true
  | (k, v) :: a', (k', v') :: b' =>
      String.eqb k k' && String.eqb v v' && pairs_eqb a' b'
  | _, _ => false
  end.

Definition body_eqb (a b : body) : bool :=
  match a, b with
  | jsonify d, jsonify d' => pairs_eqb d d'
  | error_page n, error_page n' => String.eqb n n'
  | _, _ => false
  end.

(** The bodies of the branches taken when an any-thread method returns
    [False]. *)
Definition failure_payloads : list body :=
  [ jsonify [("error", "Failed to start playback")];
    jsonify [("error", "Failed to send change video request")];
    jsonify [("error", "Failed to send play request")];
    jsonify [("status", "error"); ("message", "Failed to send pause request")];
    jsonify [("status", "error"); ("message", "Failed to send stop request")];
    jsonify [("status", "error"); ("message", "Failed to send close request")] ].

Definition is_failure_payload (b : body) : bool :=
  existsb (body_eqb b) failure_payloads.

(** ** A small installation, for the examples *)

Definition sample_globals : Globals :=
  {| DEFAULT := ["loop.mp4"];
     VIDEOS := ["clip_a.mp4"; "clip_b.mp4"; "default"];
     MAIN_PATH := "/srv/videos" |}.

Definition loop_path : string := "/srv/videos/default/loop.mp4".
Definition clip_a_path : string := "/srv/videos/clip_a.mp4".
Definition clip_b_path : string := "/srv/videos/clip_b.mp4".

Definition std_fds (n : Z) : bool := ((0 <=? n) && (n <=? 2))%Z.

(** Every listed file is there. *)
Definition all_present : Env :=
  {| path_exists := fun s =>
       existsb (String.eqb s)
         [loop_path; clip_a_path; clip_b_path; "/srv/videos/default"; "/srv/videos"];
     fd_open := std_fds;
     os_path_basename := posixpath_basename |}.

(** The default video has been deleted since the start. *)
Definition default_deleted : Env :=
  {| path_exists := fun s =>
       existsb (String.eqb s)
         [clip_a_path; clip_b_path; "/srv/videos/default"; "/srv/videos"];
     fd_open := std_fds;
     os_path_basename := posixpath_basename |}.

(** The player as the constructor leaves it. *)
Definition fresh_player : VideoPlayer :=
  {| default_video := loop_path;
     video_path := loop_path;
     mediaplayer := Vlc.media_player_new;
     app := None;
     video_frame := None;
     is_running := false;
     is_default_video := true;
     event_manager := false;
     signals_connected := false;
     poll_timer := false |}.

(** The player once [vlcApp] has started the default video. *)
Definition started_player : VideoPlayer := vlcApp all_present fresh_player.

(** The player after [clip_a.mp4] was requested and has played to its end. *)
Definition clip_a_ended : VideoPlayer :=
  main_step all_present MediaPlayerEndReached
    (main_step all_present (Deliver (change_video_signal clip_a_path)) started_player).

Definition started_system : System :=
  {| current_player := Some started_player; event_queue := [] |}.


Definition post (path : string) (b : option Json.json) : request :=
  {| req_method := POST; req_path := path; req_body := b |}.

(** ** The event loop over several events *)

(** The GUI thread handling events one after the other, each under the
    file system of its moment. *)
Fixpoint run (steps : list (Env * main_event)) (p : VideoPlayer) : VideoPlayer :=
  match steps with
  | [] => p
  | (env, ev) :: rest => run rest (main_step env ev p)
  end.

(** The GUI thread delivering the queued signals in order. *)
Definition drain (env : Env) (queue : list signal) (p : VideoPlayer) : VideoPlayer :=
  fold_left (fun q s => slot env s q) queue p.

(** The polling timer firing once under each of the given file systems. *)
Definition polls (envs : list Env) : list (Env * main_event) :=
  map (fun env => (env, PollTimeout)) envs.

(** The application object and the window are there and the event loop
    is marked as running. *)
Definition window_up (p : VideoPlayer) : bool :=
  match app p, video_frame p with
  | Some _, Some _ => is_running p
  | _, _ => false
  end.

Definition full_screen (p : VideoPlayer) : bool :=
  match video_frame p with
  | Some f => Qt.fullScreen f
  | None => false
  end.

Definition frame_closed (p : VideoPlayer) : bool :=
  match video_frame p with
  | Some f => Qt.closed f
  | None => false
  end.

Definition quit_asked (p : VideoPlayer) : bool :=
  match app p with
  | Some a => Qt.quit_requested a
  | None => false
  end.

Definition title (p : VideoPlayer) : option string :=
  match video_frame p with
  | Some f => Some (Qt.windowTitle f)
  | None => None
  end.

(** A file name: no slash in it. *)
Fixpoint no_slash (s : string) : bool :=
  match s with
  | EmptyString => true
  | String c rest => negb (Ascii.eqb c "/"%char) && no_slash rest
  end.

(** A value that [in] cannot iterate over. *)
Definition not_iterable (v : Json.json) : bool :=
  match v with
  | Json.JNull | Json.JBool _ | Json.JInt _ | Json.JFloat _ => true
  | _ => false
  end.

(** The player paused while the default video played. *)
Definition paused_player : VideoPlayer := slot all_present pause_signal started_player.

(** The system as [main] leaves it in the sample installation. *)
Definition fresh_system : System :=
  {| current_player := Some fresh_player; event_queue := [] |}.

(** ** The methods of the GUI thread *)

(** Splits the player into its fields and the media player into medium
    and state, so that the methods compute. *)
Ltac open_player p :=
  let m := fresh "m" in
  let st := fresh "st" in
  destruct p as [? ? [m st] ? ? ? ? ? ? ?]; cbn in *.

Lemma play_in_main_thread_plays (env : Env) (p : VideoPlayer) :
  plays (video_path p) (snd (play_in_main_thread env p)).
Proof.
  open_player p.
  match goal with |- context [match ?f with Some _ => _ | None => _ end] =>
    destruct f end; split; reflexivity.
Qed.

Lemma play_in_main_thread_fields (env : Env) (p : VideoPlayer) :
  let p' := snd (play_in_main_thread env p) in
  video_path p' = video_path p /\
  default_video p' = default_video p /\
  is_default_video p' = is_default_video p /\
  signals_connected p' = signals_connected p.
Proof.
  open_player p.
  match goal with |- context [match ?f with Some _ => _ | None => _ end] =>
    destruct f end; repeat split; reflexivity.
Qed.

Lemma change_video_missing (env : Env) (new_path : string) (p : VideoPlayer) :
  path_exists env new_path = false ->
  change_video_in_main_thread env new_path p = (false, p).
Proof.
  intros Hmissing. unfold change_video_in_main_thread.
  rewrite Hmissing. reflexivity.
Qed.

Lemma change_video_existing (env : Env) (new_path : string) (p : VideoPlayer) :
  path_exists env new_path = true ->
  let r := change_video_in_main_thread env new_path p in
  fst r = true /\
  video_path (snd r) = new_path /\
  default_video (snd r) = default_video p /\
  is_default_video (snd r) = String.eqb new_path (default_video p) /\
  signals_connected (snd r) = signals_connected p /\
  plays new_path (snd r).
Proof.
  intros Hthere. unfold change_video_in_main_thread.
  rewrite Hthere. unfold plays.
  destruct p as [dv vp [m st] a vf ir idv em sc pt].
  destruct st, vf; cbn; repeat split; reflexivity.
Qed.

(** C9: [change_video_in_main_thread] is all or nothing.  For a path that
    does not exist it returns [False] and leaves the whole player as it
    was; for a path that exists it returns [True], sets [video_path] to
    it, recomputes [is_default_video] by comparison with [default_video],
    and the new video plays. *)
Theorem change_video_in_main_thread_atomic (env : Env) (new_path : string)
    (p : VideoPlayer) :
  (path_exists env new_path = false ->
     change_video_in_main_thread env new_path p = (false, p)) /\
  (path_exists env new_path = true ->
     let r := change_video_in_main_thread env new_path p in
     fst r = true /\
     video_path (snd r) = new_path /\
     is_default_video (snd r) = String.eqb new_path (default_video p) /\
     default_video (snd r) = default_video p /\
     plays new_path (snd r)).
Proof.
  split.
  - apply change_video_missing.
  - intros Hthere.
    destruct (change_video_existing env new_path p Hthere)
      as (Hret & Hpath & Hdefault & Hflag & _ & Hplays).
    cbv zeta. repeat split; try assumption; apply Hplays.
Qed.

Lemma change_video_in_main_thread_atomic_witness :
  change_video_in_main_thread all_present "/srv/videos/gone.mp4" started_player
    = (false, started_player) /\
  video_path (snd (change_video_in_main_thread all_present clip_a_path started_player))
    = clip_a_path.
Proof.
  split.
  - apply (proj1 (change_video_in_main_thread_atomic
                    all_present "/srv/videos/gone.mp4" started_player)).
    reflexivity.
  - apply (proj2 (change_video_in_main_thread_atomic
                    all_present clip_a_path started_player)).
    reflexivity.
Defined.

Lemma init_flag (env : Env) (path : string) (p : VideoPlayer) :
  __init__ env path = Ok p -> default_flag_agrees p.
Proof.
  unfold __init__. destruct (path_exists env path); cbn; intros Hinit.
  - injection Hinit as <-. unfold default_flag_agrees; cbn.
    symmetry. apply String.eqb_refl.
  - discriminate.
Qed.

Lemma change_video_flag (env : Env) (new_path : string) (p : VideoPlayer) :
  default_flag_agrees p ->
  default_flag_agrees (snd (change_video_in_main_thread env new_path p)).
Proof.
  intros Hagree.
  destruct (path_exists env new_path) eqn:Hthere.
  - destruct (change_video_existing env new_path p Hthere)
      as (_ & Hpath & Hdefault & Hflag & _).
    unfold default_flag_agrees. rewrite Hflag, Hpath, Hdefault. reflexivity.
  - rewrite change_video_missing by assumption. exact Hagree.
Qed.

Lemma handle_media_end_flag (env : Env) (p : VideoPlayer) :
  path_exists env (default_video p) = true ->
  default_flag_agrees p ->
  default_flag_agrees (handle_media_end env p).
Proof.
  intros Hthere Hagree. unfold handle_media_end.
  destruct (is_default_video p) eqn:Hflag; cbn [negb].
  - destruct (play_in_main_thread_fields env p) as (Hpath & Hdefault & Hflag' & _).
    unfold default_flag_agrees. rewrite Hflag', Hpath, Hdefault. exact Hagree.
  - assert (Hthere' : path_exists env
                        (default_video (set_is_default_video true p)) = true)
      by exact Hthere.
    destruct (change_video_existing env _ (set_is_default_video true p) Hthere')
      as (_ & Hpath & Hdefault & Hflag' & _).
    unfold default_flag_agrees. rewrite Hflag', Hpath, Hdefault. reflexivity.
Qed.

(** C10: the invariant [is_default_video = (video_path = default_video)].
    The constructor, which returns for every path that exists, establishes
    it; [change_video_in_main_thread] preserves it for every path and file
    system; [handle_media_end] preserves it when the default video file
    exists. *)
Theorem default_flag_invariant :
  (forall env path, path_exists env path = true ->
     exists p, __init__ env path = Ok p /\ default_flag_agrees p) /\
  (forall env new_path p, default_flag_agrees p ->
     default_flag_agrees (snd (change_video_in_main_thread env new_path p))) /\
  (forall env p, path_exists env (default_video p) = true ->
     default_flag_agrees p ->
     default_flag_agrees (handle_media_end env p)).
Proof.
  split; [| split].
  - intros env path Hthere.
    destruct (__init__ env path) as [p | e] eqn:Hinit.
    + exists p. split; [reflexivity | exact (init_flag env path p Hinit)].
    + unfold __init__ in Hinit. rewrite Hthere in Hinit. discriminate.
  - exact change_video_flag.
  - exact handle_media_end_flag.
Qed.

Lemma default_flag_invariant_witness :
  (exists p, __init__ all_present loop_path = Ok p /\ default_flag_agrees p) /\
  default_flag_agrees
    (snd (change_video_in_main_thread all_present clip_a_path started_player)) /\
  default_flag_agrees (handle_media_end all_present clip_a_ended).
Proof.
  destruct default_flag_invariant as (Hinit & Hchange & Hend).
  split; [| split].
  - apply Hinit. reflexivity.
  - apply Hchange. reflexivity.
  - apply Hend; reflexivity.
Defined.

(** C1, as amended: when a medium ends and the finished video was not the
    default, [handle_media_end] switches to the default video, sets the
    flag and plays it, provided the default video file exists; when the
    finished video was the default (flag set), it plays the same video
    again. *)
Theorem handle_media_end_rule (env : Env) (p : VideoPlayer) :
  is_default_video p = true \/ path_exists env (default_video p) = true ->
  media_end_rule env p.
Proof.
  intros Hcase. unfold media_end_rule, handle_media_end.
  destruct (is_default_video p) eqn:Hflag; cbn [negb].
  - destruct (play_in_main_thread_fields env p) as (Hpath & _ & Hflag' & _).
    cbv zeta in Hpath, Hflag'.
    rewrite Hpath, Hflag', Hflag.
    repeat split; try reflexivity; apply play_in_main_thread_plays.
  - destruct Hcase as [Habsurd | Hthere]; [discriminate |].
    destruct (change_video_existing env (default_video p)
                (set_is_default_video true p) Hthere)
      as (_ & Hpath & _ & Hflag' & _ & Hplays).
    change (default_video (set_is_default_video true p)) with (default_video p).
    rewrite Hpath, Hflag'. cbn [default_video set_is_default_video].
    rewrite String.eqb_refl.
    repeat split; try reflexivity; apply Hplays.
Qed.

Lemma handle_media_end_rule_witness :
  media_end_rule all_present clip_a_ended /\
  media_end_rule default_deleted started_player.
Proof.
  split.
  - apply handle_media_end_rule. right. reflexivity.
  - apply handle_media_end_rule. left. reflexivity.
Defined.

(** C1, as stated, fails when the default video file is gone: after
    [clip_a.mp4] has ended the player is neither on the default video nor
    playing it. *)
Lemma handle_media_end_default_deleted :
  ~ media_end_rule default_deleted clip_a_ended.
Proof.
  unfold media_end_rule. vm_compute. intros (Hpath & _). discriminate Hpath.
Qed.

(** In that state the flag is set although the player is still on the
    other video, and the next poll plays that video again. *)
Lemma handle_media_end_default_deleted_state :
  let p' := handle_media_end default_deleted clip_a_ended in
  is_default_video p' = true /\
  video_path p' = clip_a_path /\
  Vlc.state (mediaplayer p') = Vlc.Ended /\
  plays clip_a_path (check_playback_status default_deleted p').
Proof. vm_compute. repeat split; reflexivity. Qed.

(** *** The states of the event loop *)

Lemma vlcApp_ready (env : Env) (p : VideoPlayer) :
  media_loaded (vlcApp env p) = true /\ signals_connected (vlcApp env p) = true.
Proof.
  destruct p as [dv vp [m st] a vf ir idv em sc pt]. split; reflexivity.
Qed.

Lemma main_step_ready (env : Env) (ev : main_event) (p : VideoPlayer) :
  media_loaded p = true /\ signals_connected p = true ->
  media_loaded (main_step env ev p) = true /\
  signals_connected (main_step env ev p) = true.
Proof.
  destruct p as [dv vp [m st] a vf ir idv em sc pt].
  unfold media_loaded. cbn. intros (Hloaded & ->).
  destruct m as [path |]; [clear Hloaded | discriminate].
  destruct ev as [[new_path | | | |] | | |]; cbn;
    unfold check_playback_status, handle_media_end, change_video_in_main_thread; cbn;
    repeat match goal with
      | |- context [path_exists ?e ?x] => destruct (path_exists e x); cbn
      | |- context [negb ?b] => destruct b; cbn
      end;
    destruct st; cbn; try (split; reflexivity);
    destruct vf; cbn; try (split; reflexivity);
    destruct a; cbn; try (split; reflexivity);
    destruct ir; cbn; split; reflexivity.
Qed.

Lemma running_ready (p : VideoPlayer) :
  running p -> media_loaded p = true /\ signals_connected p = true.
Proof.
  induction 1 as [env env' path p _ | env ev p _ IH].
  - apply vlcApp_ready.
  - apply main_step_ready, IH.
Qed.

Lemma running_started_player : running started_player.
Proof. apply (running_start all_present all_present loop_path). reflexivity. Qed.

Lemma pause_in_main_thread_toggles (p : VideoPlayer) :
  media_loaded p = true ->
  let p' := snd (pause_in_main_thread p) in
  (Vlc.is_playing (mediaplayer p) = true ->
     Vlc.state (mediaplayer p') = Vlc.Paused) /\
  (Vlc.is_playing (mediaplayer p) = false ->
     Vlc.state (mediaplayer p') = Vlc.Playing) /\
  Vlc.media (mediaplayer p') = Vlc.media (mediaplayer p).
Proof.
  destruct p as [dv vp [m st] a vf ir idv em sc pt].
  unfold media_loaded, pause_in_main_thread. cbn.
  destruct m as [path |]; [intros _ | discriminate].
  destruct st; cbn; repeat split; intros; try reflexivity; discriminate.
Qed.

(** C6: [POST /pause] answers 200, 400 or 500, whatever the state and the
    body.  With the player set up and its event loop running, the request
    puts [pause_signal] on the queue of the GUI thread, and the slot that
    the signal reaches, [pause_in_main_thread], toggles: a playing media
    player becomes paused, one that is not playing starts to play. *)
Theorem pause_toggles (g : Globals) (env : Env) (b : option Json.json)
    (s : System) :
  let out := serve g env (post "/pause" b) s in
  (status (fst out) = 200%Z \/ status (fst out) = 400%Z \/
   status (fst out) = 500%Z) /\
  (forall p, current_player s = Some p -> running p ->
     snd out = {| current_player := Some p;
                  event_queue := (event_queue s ++ [pause_signal])%list |} /\
     slot env pause_signal p = snd (pause_in_main_thread p) /\
     (Vlc.is_playing (mediaplayer p) = true ->
        Vlc.state (mediaplayer (slot env pause_signal p)) = Vlc.Paused) /\
     (Vlc.is_playing (mediaplayer p) = false ->
        Vlc.state (mediaplayer (slot env pause_signal p)) = Vlc.Playing)).
Proof.
  cbv zeta. split.
  - unfold serve, post, pause_video; cbn.
    destruct (current_player s); cbn; auto.
  - intros p Hplayer Hrunning.
    destruct (running_ready p Hrunning) as (Hloaded & Hconn).
    destruct (pause_in_main_thread_toggles p Hloaded) as (Hpause & Hplay & _).
    repeat split; try assumption.
    unfold serve, post, pause_video; cbn.
    rewrite Hplayer. cbn. unfold emit. rewrite Hconn. reflexivity.
Qed.

Lemma pause_toggles_witness :
  Vlc.state (mediaplayer (slot all_present pause_signal started_player)) = Vlc.Paused.
Proof.
  apply (proj2 (pause_toggles sample_globals all_present None started_system)
           started_player).
  - reflexivity.
  - apply (running_start all_present all_present loop_path). reflexivity.
  - reflexivity.
Defined.

(** ** The methods of any thread *)

(** C7: a call of [change_video], [play], [pause], [stop] or [close]
    leaves the player object as it found it, field for field: all it does
    is emit its signal, which adds at most that signal to the queue of
    the GUI thread.  Hence no request changes [current_player]. *)
Theorem any_thread_methods_only_emit (p : VideoPlayer) (queue : list signal)
    (new_path : string) :
  snd (change_video new_path p queue)
    = (p, emit (change_video_signal new_path) p queue) /\
  snd (play p queue) = (p, emit play_signal p queue) /\
  snd (pause p queue) = (p, emit pause_signal p queue) /\
  snd (stop p queue) = (p, emit stop_signal p queue) /\
  snd (close p queue) = (p, emit close_signal p queue) /\
  (forall sig, emit sig p queue = queue \/ emit sig p queue = (queue ++ [sig])%list) /\
  (forall g env r,
     current_player
       (snd (serve g env r {| current_player := Some p; event_queue := queue |}))
     = Some p).
Proof.
  repeat split.
  - intros sig. unfold emit. destruct (signals_connected p); auto.
  - intros g env r.
    set (s := {| current_player := Some p; event_queue := queue |}).
    assert (Hplayer : current_player s = Some p) by reflexivity.
    clearbody s.
    unfold serve, make_response, method_not_allowed, not_found.
    repeat match goal with
      | |- context [String.eqb ?a ?b] => destruct (String.eqb a b)
      end;
      destruct (req_method r); cbn [fst snd]; try assumption;
      unfold resume, changeVideo, play_video, pause_video, stop_video,
        close_player, test_endpoint;
      rewrite Hplayer; cbn;
      repeat match goal with
        | |- context [match ?x with _ => _ end] => destruct x; cbn
        end;
      try reflexivity; try assumption.
Qed.

(** ** The HTTP API *)

(** C5: [GET /test] answers 200 with its fixed body and touches nothing,
    for every state of the system, also without a player. *)
Theorem test_endpoint_200 (g : Globals) (env : Env) (b : option Json.json)
    (s : System) :
  serve g env {| req_method := GET; req_path := "/test"; req_body := b |} s
  = ({| payload := jsonify [("status", "API is running")]; status := 200 |}, s).
Proof. reflexivity. Qed.

(** C2: with the player initialized, [POST /play] with a body whose
    ['video_path'] names a file that does not exist answers 404 with an
    error payload; no signal is emitted and the player is not touched, so
    the system is left as it was. *)
Theorem play_missing_file_404 (g : Globals) (env : Env)
    (d : list (string * Json.json)) (v : Json.json) (s : System) (p : VideoPlayer) :
  current_player s = Some p ->
  Json.lookup "video_path" d = Some v ->
  os_path_exists env v = Ok false ->
  let out := serve g env (post "/play" (Some (Json.JObject d))) s in
  fst out = {| payload := jsonify [("error", "Video file not found")];
               status := 404 |} /\
  is_error_payload (payload (fst out)) = true /\
  snd out = s.
Proof.
  intros Hplayer Hkey Hmissing.
  unfold serve, post, play_video; cbn.
  rewrite Hplayer, Hkey, Hmissing. cbn. repeat split; reflexivity.
Qed.

Lemma play_missing_file_404_witness :
  status (fst (serve sample_globals all_present
                 (post "/play"
                    (Some (Json.JObject
                             [("video_path", Json.JString "/srv/videos/gone.mp4")])))
                 started_system)) = 404%Z.
Proof.
  pose proof (play_missing_file_404 sample_globals all_present
                [("video_path", Json.JString "/srv/videos/gone.mp4")]
                (Json.JString "/srv/videos/gone.mp4") started_system started_player
                eq_refl eq_refl eq_refl) as (Hresponse & _).
  cbv zeta in Hresponse. rewrite Hresponse. reflexivity.
Defined.




(** [xs[n]] for an index within the list is the element at [n]. *)
Lemma index_at_nth (xs : list string) (n : Z) (x : string) :
  (0 <= n)%Z ->
  nth_error xs (Z.to_nat n) = Some x ->
  Json.index_at xs n = Ok x.
Proof.
  intros Hpos Hnth. unfold Json.index_at.
  assert (Hlt : (Z.to_nat n < length xs)%nat)
    by (apply nth_error_Some; rewrite Hnth; discriminate).
  destruct (n <? 0)%Z eqn:Hneg; [apply Z.ltb_lt in Hneg; lia |].
  replace (0 <=? n)%Z with true by (symmetry; apply Z.leb_le; lia).
  replace (n <? Z.of_nat (length xs))%Z with true
    by (symmetry; apply Z.ltb_lt; lia).
  cbn. rewrite Hnth. reflexivity.
Qed.





(** One case split on what a view function inspects. *)
Ltac case_scrutinee :=
  match goal with
  | |- context [match current_player ?s with _ => _ end] =>
      destruct (current_player s)
  | |- context [match req_body ?r with _ => _ end] => destruct (req_body r)
  | |- context [Json.lookup ?k ?d] => destruct (Json.lookup k d)
  | |- context [Json.list_getitem ?l ?i] => destruct (Json.list_getitem l i)
  | |- context [os_path_exists ?e ?v] => destruct (os_path_exists e v) as [[|] |]
  | |- context [existsb ?f ?l] => destruct (existsb f l)
  | |- context [Json.substring_of ?k ?x] => destruct (Json.substring_of k x)
  | |- context [signals_connected ?p] => destruct (signals_connected p)
  | |- context [match ?x with _ => _ end] => is_var x; destruct x
  end; cbn.

(** C8: the any-thread methods return [True] on every call.  So, with the
    player initialized, [/resume], [/pause], [/stop] and [/close] answer
    200, [/pause] and [/stop] never answer 400, and no request is ever
    answered from a branch taken when such a method returns [False]. *)
Theorem any_thread_methods_return_true (p : VideoPlayer) (queue : list signal)
    (new_path : string) :
  fst (change_video new_path p queue) = true /\
  fst (play p queue) = true /\
  fst (pause p queue) = true /\
  fst (stop p queue) = true /\
  fst (close p queue) = true /\
  (forall g env b,
     let s := {| current_player := Some p; event_queue := queue |} in
     status (fst (serve g env (post "/resume" b) s)) = 200%Z /\
     status (fst (serve g env (post "/pause" b) s)) = 200%Z /\
     status (fst (serve g env (post "/stop" b) s)) = 200%Z /\
     status (fst (serve g env (post "/close" b) s)) = 200%Z) /\
  (forall g env b s,
     Z.eqb (status (fst (serve g env (post "/pause" b) s))) 400 = false /\
     Z.eqb (status (fst (serve g env (post "/stop" b) s))) 400 = false) /\
  (forall g env r s,
     is_failure_payload (payload (fst (serve g env r s))) = false).
Proof.
  repeat split.
  - unfold serve, post, pause_video; cbn. destruct (current_player s); reflexivity.
  - unfold serve, post, stop_video; cbn. destruct (current_player s); reflexivity.
  - intros g env r s.
    unfold serve, make_response, method_not_allowed, not_found.
    repeat match goal with
      | |- context [String.eqb ?a ?b] => destruct (String.eqb a b)
      end;
      destruct (req_method r); cbn [fst snd]; try reflexivity;
      unfold resume, changeVideo, play_video, pause_video, stop_video,
        close_player, test_endpoint, call, play, pause, stop, close,
        change_video, get_json, bind, Json.get, Json.contains, Json.getitem; cbn;
      repeat case_scrutinee; reflexivity.
Qed.

(** ** Further properties of the GUI thread *)

Lemma play_in_main_thread_twice (env : Env) (p : VideoPlayer) :
  snd (play_in_main_thread env (snd (play_in_main_thread env p)))
  = snd (play_in_main_thread env p).
Proof.
  destruct p as [dv vp [m st] a vf ir idv em sc pt].
  destruct vf; reflexivity.
Qed.

Lemma handle_media_end_default (env : Env) (p : VideoPlayer) :
  is_default_video p = true ->
  handle_media_end env p = snd (play_in_main_thread env p).
Proof.
  intros Hflag. unfold handle_media_end. rewrite Hflag. reflexivity.
Qed.

(** Handling one end of medium twice, as happens when both the
    end-of-media event and the polling timer report it, leaves the player
    as handling it once does, as long as the default video file is there
    or the flag was already set. *)
Theorem handle_media_end_twice (env : Env) (p : VideoPlayer) :
  is_default_video p = true \/ path_exists env (default_video p) = true ->
  handle_media_end env (handle_media_end env p) = handle_media_end env p.
Proof.
  intros Hcase.
  destruct (is_default_video p) eqn:Hflag.
  - rewrite (handle_media_end_default env p Hflag).
    rewrite handle_media_end_default.
    + apply play_in_main_thread_twice.
    + destruct (play_in_main_thread_fields env p) as (_ & _ & Hflag' & _).
      cbv zeta in Hflag'. rewrite Hflag'. exact Hflag.
  - destruct Hcase as [Habsurd | Hthere]; [discriminate |].
    assert (Hflag' : is_default_video (handle_media_end env p) = true).
    { unfold handle_media_end. rewrite Hflag. cbn [negb].
      destruct (change_video_existing env (default_video p)
                  (set_is_default_video true p) Hthere)
        as (_ & _ & _ & Hnew & _).
      change (default_video (set_is_default_video true p))
        with (default_video p) in *.
      rewrite Hnew. apply String.eqb_refl. }
    rewrite (handle_media_end_default env _ Hflag').
    unfold handle_media_end, change_video_in_main_thread.
    rewrite Hflag. cbn [negb].
    change (default_video (set_is_default_video true p)) with (default_video p).
    rewrite Hthere. cbn [snd].
    apply play_in_main_thread_twice.
Qed.

Lemma handle_media_end_twice_witness :
  handle_media_end all_present (handle_media_end all_present clip_a_ended)
  = handle_media_end all_present clip_a_ended.
Proof.
  apply handle_media_end_twice. right. reflexivity.
Defined.

(** When a video other than the default has ended and the default video
    file is gone, [handle_media_end] only sets the flag: the player stays
    on the finished video with the flag claiming the default, and the next
    poll plays the finished video again. *)
Theorem handle_media_end_default_missing (env : Env) (p : VideoPlayer) :
  is_default_video p = false ->
  default_flag_agrees p ->
  path_exists env (default_video p) = false ->
  Vlc.state (mediaplayer p) = Vlc.Ended ->
  let p1 := handle_media_end env p in
  p1 = set_is_default_video true p /\
  is_default_video p1 = true /\
  String.eqb (video_path p1) (default_video p1) = false /\
  (forall env', video_path (check_playback_status env' p1) = video_path p /\
                plays (video_path p) (check_playback_status env' p1)).
Proof.
  destruct p as [dv vp [m st] a vf ir idv em sc pt].
  unfold default_flag_agrees, handle_media_end, change_video_in_main_thread,
    check_playback_status, plays. cbn.
  intros -> Hagree Hmissing ->. cbn. rewrite Hmissing. cbn.
  repeat split; try (symmetry; exact Hagree); destruct vf; reflexivity.
Qed.

Lemma handle_media_end_default_missing_witness :
  handle_media_end default_deleted clip_a_ended
  = set_is_default_video true clip_a_ended.
Proof.
  apply (handle_media_end_default_missing default_deleted clip_a_ended);
    reflexivity.
Defined.

(** [stop_in_main_thread] reports whether it stopped something, and the
    media player is never playing afterwards; on a paused player it does
    nothing at all, so a paused video cannot be stopped. *)
Theorem stop_in_main_thread_effect (p : VideoPlayer) :
  fst (stop_in_main_thread p) = Vlc.is_playing (mediaplayer p) /\
  Vlc.is_playing (mediaplayer (snd (stop_in_main_thread p))) = false /\
  Vlc.media (mediaplayer (snd (stop_in_main_thread p))) = Vlc.media (mediaplayer p) /\
  (Vlc.state (mediaplayer p) = Vlc.Paused -> stop_in_main_thread p = (false, p)).
Proof.
  destruct p as [dv vp [m st] a vf ir idv em sc pt].
  unfold stop_in_main_thread. cbn.
  destruct st; cbn; repeat split; intros; try reflexivity; discriminate.
Qed.

Lemma stop_in_main_thread_effect_witness :
  stop_in_main_thread paused_player = (false, paused_player).
Proof.
  apply (stop_in_main_thread_effect paused_player). reflexivity.
Defined.

(** A video that was stopped while it played stays stopped: however often
    the polling timer fires, it changes nothing, so the player does not
    return to the default video by itself. *)
Theorem stopped_player_ignores_polls (envs : list Env) (p : VideoPlayer) :
  Vlc.is_playing (mediaplayer p) = true ->
  Vlc.state (mediaplayer (snd (stop_in_main_thread p))) = Vlc.Stopped /\
  run (polls envs) (snd (stop_in_main_thread p)) = snd (stop_in_main_thread p).
Proof.
  intros Hplaying. unfold stop_in_main_thread. rewrite Hplaying. cbn [snd].
  split; [reflexivity |].
  induction envs as [| env envs IH]; [reflexivity |].
  cbn [polls map run main_step]. exact IH.
Qed.

Lemma stopped_player_ignores_polls_witness :
  run (polls [all_present; default_deleted]) (snd (stop_in_main_thread started_player))
  = snd (stop_in_main_thread started_player).
Proof.
  apply (stopped_player_ignores_polls [all_present; default_deleted] started_player).
  reflexivity.
Defined.

(** Pausing twice is a round trip: from a playing media player with a
    medium loaded, two calls of [pause_in_main_thread] give the player
    back as it was; the first reports [True], the second [False]. *)
Theorem pause_in_main_thread_twice (p : VideoPlayer) :
  Vlc.is_playing (mediaplayer p) = true ->
  media_loaded p = true ->
  fst (pause_in_main_thread p) = true /\
  fst (pause_in_main_thread (snd (pause_in_main_thread p))) = false /\
  snd (pause_in_main_thread (snd (pause_in_main_thread p))) = p.
Proof.
  destruct p as [dv vp [m st] a vf ir idv em sc pt].
  unfold pause_in_main_thread, media_loaded. cbn.
  destruct st; cbn; try discriminate. intros _.
  destruct m; cbn; [intros _ | discriminate]. repeat split; reflexivity.
Qed.

Lemma pause_in_main_thread_twice_witness :
  snd (pause_in_main_thread (snd (pause_in_main_thread started_player)))
  = started_player.
Proof.
  apply (pause_in_main_thread_twice started_player); reflexivity.
Defined.

(** *** What the event loop keeps *)

Lemma main_step_default_video (env : Env) (ev : main_event) (p : VideoPlayer) :
  default_video (main_step env ev p) = default_video p.
Proof.
  destruct p as [dv vp [m st] a vf ir idv em sc pt].
  destruct ev as [[new_path | | | |] | | |]; cbn;
    unfold check_playback_status, handle_media_end, change_video_in_main_thread; cbn;
    repeat match goal with
      | |- context [path_exists ?e ?x] => destruct (path_exists e x); cbn
      | |- context [negb ?b] => destruct b; cbn
      end;
    destruct st; cbn; try reflexivity;
    destruct vf; cbn; try reflexivity;
    destruct a; cbn; try reflexivity;
    destruct ir; reflexivity.
Qed.

Lemma main_step_flag (env : Env) (ev : main_event) (p : VideoPlayer) :
  path_exists env (default_video p) = true ->
  default_flag_agrees p ->
  default_flag_agrees (main_step env ev p).
Proof.
  intros Hthere Hagree.
  destruct ev as [[new_path | | | |] | | |]; cbn [main_step slot].
  - apply change_video_flag, Hagree.
  - destruct p as [dv vp [m st] a vf ir idv em sc pt].
    unfold default_flag_agrees in *. destruct st; exact Hagree.
  - destruct (play_in_main_thread_fields env p) as (Hpath & Hdefault & Hflag & _).
    unfold default_flag_agrees. rewrite Hflag, Hpath, Hdefault. exact Hagree.
  - destruct p as [dv vp [m st] a vf ir idv em sc pt].
    unfold default_flag_agrees in *. destruct st; exact Hagree.
  - destruct p as [dv vp [m st] a vf ir idv em sc pt].
    unfold default_flag_agrees in *.
    destruct st, vf, a, ir; exact Hagree.
  - unfold check_playback_status.
    destruct (Vlc.State_eqb _ _); [| exact Hagree].
    apply handle_media_end_flag; assumption.
  - apply handle_media_end_flag; assumption.
  - exact Hagree.
Qed.

(** Whatever events the GUI thread handles, in whatever order,
    [default_video] never changes, and the flag [is_default_video] keeps
    telling whether [video_path] is the default video, as long as the
    default video file is there at every step. *)
Theorem event_loop_keeps_flag (steps : list (Env * main_event)) (p : VideoPlayer) :
  default_flag_agrees p ->
  Forall (fun step => path_exists (fst step) (default_video p) = true) steps ->
  default_video (run steps p) = default_video p /\
  default_flag_agrees (run steps p).
Proof.
  revert p. induction steps as [| [env ev] steps IH]; intros p Hagree Hthere.
  - split; [reflexivity | exact Hagree].
  - inversion Hthere as [| step rest Hhead Hrest]; subst.
    cbn [run fst] in *.
    destruct (IH (main_step env ev p)) as (Hdefault & Hflag).
    + apply main_step_flag; assumption.
    + rewrite main_step_default_video. exact Hrest.
    + rewrite main_step_default_video in Hdefault. split; assumption.
Qed.

Lemma event_loop_keeps_flag_witness :
  default_flag_agrees
    (run [(all_present, Deliver (change_video_signal clip_a_path));
          (all_present, MediaPlayerEndReached);
          (all_present, PollTimeout);
          (all_present, Deliver pause_signal)] started_player).
Proof.
  apply (event_loop_keeps_flag
           [(all_present, Deliver (change_video_signal clip_a_path));
            (all_present, MediaPlayerEndReached);
            (all_present, PollTimeout);
            (all_present, Deliver pause_signal)] started_player).
  - reflexivity.
  - repeat constructor.
Defined.

(** Whatever was playing, once it has played to its end the next poll has
    the default video playing, if the default video file is there. *)
Theorem end_then_poll_plays_default (env env' : Env) (p : VideoPlayer) :
  Vlc.is_playing (mediaplayer p) = true ->
  default_flag_agrees p ->
  path_exists env' (default_video p) = true ->
  let p' := main_step env' PollTimeout (main_step env MediaPlayerEndReached p) in
  video_path p' = default_video p /\
  is_default_video p' = true /\
  plays (default_video p) p'.
Proof.
  intros Hplaying Hagree Hthere.
  destruct p as [dv vp [m st] a vf ir idv em sc pt].
  unfold default_flag_agrees in Hagree. cbn in Hplaying, Hagree, Hthere.
  destruct st; try discriminate Hplaying.
  cbn [main_step mediaplayer set_mediaplayer Vlc.end_reached Vlc.state Vlc.media].
  unfold check_playback_status. cbn [mediaplayer Vlc.get_state Vlc.state Vlc.State_eqb].
  cbv zeta.
  destruct idv.
  - symmetry in Hagree. apply String.eqb_eq in Hagree. subst vp.
    unfold handle_media_end, plays. destruct vf; cbn; repeat split; reflexivity.
  - assert (Hrule : media_end_rule env'
              (mkVideoPlayer dv vp (Vlc.mkMediaPlayer m Vlc.Ended) a vf ir false em sc pt)).
    { unfold media_end_rule, handle_media_end, change_video_in_main_thread, plays.
      cbn. rewrite Hthere. cbn. rewrite String.eqb_refl.
      destruct vf; cbn; repeat split; reflexivity. }
    exact Hrule.
Qed.

Lemma end_then_poll_plays_default_witness :
  plays loop_path
    (main_step all_present PollTimeout
       (main_step all_present MediaPlayerEndReached
          (main_step all_present (Deliver (change_video_signal clip_a_path))
             started_player))).
Proof.
  apply (end_then_poll_plays_default all_present all_present
           (main_step all_present (Deliver (change_video_signal clip_a_path))
              started_player)); reflexivity.
Defined.

(** *** Start and shutdown *)

Lemma vlcApp_window (env : Env) (p : VideoPlayer) : window_up (vlcApp env p) = true.
Proof.
  destruct p as [dv vp [m st] a vf ir idv em sc pt]. reflexivity.
Qed.

Lemma main_step_window (env : Env) (ev : main_event) (p : VideoPlayer) :
  window_up p = true -> window_up (main_step env ev p) = true.
Proof.
  destruct p as [dv vp [m st] a vf ir idv em sc pt].
  unfold window_up. cbn.
  destruct a as [a |]; [| discriminate].
  destruct vf as [f |]; [| discriminate].
  intros ->.
  destruct ev as [[new_path | | | |] | | |]; cbn;
    unfold check_playback_status, handle_media_end, change_video_in_main_thread; cbn;
    repeat match goal with
      | |- context [path_exists ?e ?x] => destruct (path_exists e x); cbn
      | |- context [negb ?b] => destruct b; cbn
      end;
    destruct st; reflexivity.
Qed.

Lemma running_window (p : VideoPlayer) : running p -> window_up p = true.
Proof.
  induction 1 as [env env' path p _ | env ev p _ IH].
  - apply vlcApp_window.
  - apply main_step_window, IH.
Qed.

(** [vlcApp] on a player fresh from the constructor: the default video
    plays in a window that is shown full screen, is not closed, and is
    titled ["[DEFAULT] Video Player - "] followed by [os.path.basename] of
    the path; the signals are connected, the polling timer runs, the
    end-of-media handler is attached, and the flag agrees with the path. *)
Theorem vlcApp_starts_default (env env' : Env) (path : string) (p : VideoPlayer) :
  __init__ env path = Ok p ->
  plays path (vlcApp env' p) /\
  full_screen (vlcApp env' p) = true /\
  frame_closed (vlcApp env' p) = false /\
  title (vlcApp env' p)
  = Some ("[DEFAULT] Video Player - " ++ os_path_basename env' path) /\
  window_up (vlcApp env' p) = true /\
  signals_connected (vlcApp env' p) = true /\
  poll_timer (vlcApp env' p) = true /\
  event_manager (vlcApp env' p) = true /\
  video_path (vlcApp env' p) = path /\
  default_flag_agrees (vlcApp env' p).
Proof.
  unfold __init__. destruct (path_exists env path); cbn [negb]; [| discriminate].
  intros Hinit. injection Hinit as <-.
  unfold default_flag_agrees, plays.
  repeat split; try reflexivity.
  cbn. symmetry. apply String.eqb_refl.
Qed.

Lemma vlcApp_starts_default_witness :
  plays loop_path (vlcApp all_present fresh_player) /\
  full_screen (vlcApp all_present fresh_player) = true.
Proof.
  pose proof (vlcApp_starts_default all_present all_present loop_path fresh_player
                eq_refl) as (Hplays & Hfull & _).
  split; assumption.
Defined.

(** [close_in_main_thread] on a player whose event loop runs: it returns
    [True]; afterwards nothing plays, the window is closed and the
    application has been asked to quit, while the path and the flag are
    as before; closing again changes nothing more. *)
Theorem close_in_main_thread_running (p : VideoPlayer) :
  running p ->
  let p' := snd (close_in_main_thread p) in
  fst (close_in_main_thread p) = true /\
  Vlc.is_playing (mediaplayer p') = false /\
  frame_closed p' = true /\
  quit_asked p' = true /\
  video_path p' = video_path p /\
  is_default_video p' = is_default_video p /\
  snd (close_in_main_thread p') = p'.
Proof.
  intros Hrunning. apply running_window in Hrunning.
  destruct p as [dv vp [m st] a vf ir idv em sc pt].
  unfold window_up in Hrunning. cbn in Hrunning.
  destruct a as [a |]; [| discriminate].
  destruct vf as [f |]; [| discriminate].
  subst ir.
  destruct st; cbn; repeat split; reflexivity.
Qed.

Lemma close_in_main_thread_running_witness :
  quit_asked (snd (close_in_main_thread started_player)) = true.
Proof.
  apply (close_in_main_thread_running started_player).
  apply (running_start all_present all_present loop_path). reflexivity.
Defined.

(** *** The window title *)

Lemma append_cons (acc : string) (c : ascii) (rest : string) :
  (acc ++ String c EmptyString) ++ rest = acc ++ String c rest.
Proof.
  induction acc as [| a acc IH]; cbn; [reflexivity | rewrite IH; reflexivity].
Qed.

Lemma basename_from_no_slash (name acc : string) :
  no_slash name = true -> basename_from name acc = acc ++ name.
Proof.
  revert acc. induction name as [| c name IH]; intros acc Hname; cbn.
  - induction acc as [| a acc IHacc]; cbn; [reflexivity | rewrite <- IHacc; reflexivity].
  - cbn in Hname. apply andb_prop in Hname as (Hc & Hname).
    apply negb_true_iff in Hc. rewrite Hc.
    rewrite (IH _ Hname). apply append_cons.
Qed.

Lemma basename_from_join (dir name acc : string) :
  no_slash name = true ->
  basename_from (dir ++ String "/" name) acc = name.
Proof.
  intros Hname. revert acc. induction dir as [| c dir IH]; intros acc; cbn.
  - apply (basename_from_no_slash name EmptyString Hname).
  - destruct (Ascii.eqb c "/"); apply IH.
Qed.

Lemma play_in_main_thread_title (env : Env) (p : VideoPlayer) (f : Qt.QFrame) :
  video_frame p = Some f ->
  title (snd (play_in_main_thread env p)) = Some (window_title env p).
Proof.
  destruct p as [dv vp [m st] a vf ir idv em sc pt]. cbn.
  intros ->. reflexivity.
Qed.

(** On a POSIX platform, where [os.path.basename] is
    [posixpath.basename]: after a change to the file [name] in the
    directory [dir], the window is titled with the bare file name, with
    the prefix ["[DEFAULT] "] exactly when the new path is the default
    video. *)
Theorem change_video_title (env : Env) (dir name : string) (p : VideoPlayer)
    (f : Qt.QFrame) :
  (forall s, os_path_basename env s = posixpath_basename s) ->
  path_exists env (dir ++ "/" ++ name) = true ->
  no_slash name = true ->
  video_frame p = Some f ->
  title (snd (change_video_in_main_thread env (dir ++ "/" ++ name) p))
  = Some ((if String.eqb (dir ++ "/" ++ name) (default_video p)
           then "[DEFAULT] " else "")
          ++ "Video Player - " ++ name).
Proof.
  intros Hposix Hthere Hname Hframe.
  unfold change_video_in_main_thread. rewrite Hthere. cbv zeta. cbn [snd].
  match goal with |- title (snd (play_in_main_thread env ?q)) = _ =>
    assert (Hq : video_frame q = Some f /\
                 video_path q = dir ++ "/" ++ name /\
                 is_default_video q = String.eqb (dir ++ "/" ++ name) (default_video p))
      by (destruct p as [dv vp [m st] a vf ir idv em sc pt];
          cbn in Hframe; subst vf; destruct st; repeat split; reflexivity);
    destruct Hq as (Hf & Hpath & Hflag);
    rewrite (play_in_main_thread_title env q f Hf);
    unfold window_title; rewrite Hpath, Hflag
  end.
  rewrite Hposix. unfold posixpath_basename.
  change (dir ++ "/" ++ name) with (dir ++ String "/" name).
  rewrite (basename_from_join dir name EmptyString Hname). reflexivity.
Qed.

Lemma change_video_title_witness :
  title (snd (change_video_in_main_thread all_present
                ("/srv/videos" ++ "/" ++ "clip_a.mp4") started_player))
  = Some ("Video Player - clip_a.mp4").
Proof.
  apply (change_video_title all_present "/srv/videos" "clip_a.mp4" started_player
           (Qt.showFullScreen
              (Qt.setWindowTitle "[DEFAULT] Video Player - loop.mp4" Qt.new_frame))).
  - intros s. reflexivity.
  - reflexivity.
  - reflexivity.
  - reflexivity.
Defined.

(** ** Further properties of the HTTP API *)

(** [POST /play] with the player initialized and a ['video_path'] that
    exists: the answer is 200 and names the path, the request to change to
    that path is emitted, and once the GUI thread handles it (the file
    still there) the player is on that video and plays it. *)
Theorem play_existing_file (g : Globals) (env env' : Env)
    (d : list (string * Json.json)) (path : string) (s : System) (p : VideoPlayer) :
  current_player s = Some p ->
  Json.lookup "video_path" d = Some (Json.JString path) ->
  path_exists env path = true ->
  path_exists env' path = true ->
  let out := serve g env (post "/play" (Some (Json.JObject d))) s in
  fst out = {| payload := jsonify [("status", "success");
                                   ("message", "Play request sent for " ++ path)];
               status := 200 |} /\
  snd out = {| current_player := Some p;
               event_queue := emit (change_video_signal path) p (event_queue s) |} /\
  video_path (slot env' (change_video_signal path) p) = path /\
  plays path (slot env' (change_video_signal path) p).
Proof.
  intros Hplayer Hkey Hthere Hthere'.
  destruct (change_video_existing env' path p Hthere')
    as (_ & Hpath & _ & _ & _ & Hplays).
  unfold serve, post, play_video; cbn.
  rewrite Hplayer, Hkey. cbn. rewrite Hthere. cbn.
  repeat split; try assumption; apply Hplays.
Qed.

Lemma play_existing_file_witness :
  plays clip_a_path (slot all_present (change_video_signal clip_a_path) started_player).
Proof.
  apply (play_existing_file sample_globals all_present all_present
           [("video_path", Json.JString clip_a_path)] clip_a_path
           started_system started_player); reflexivity.
Defined.

(** [POST /play] with the player initialized and no ['video_path']: a
    body that is not JSON counts as the empty object, so for it as for an
    object without that member the answer is 200, [play_signal] is
    emitted, and its slot plays the current video again. *)
Theorem play_without_path (g : Globals) (env : Env) (b : option Json.json)
    (s : System) (p : VideoPlayer) :
  current_player s = Some p ->
  b = None \/ (exists d, b = Some (Json.JObject d) /\
                         Json.lookup "video_path" d = None) ->
  let out := serve g env (post "/play" b) s in
  fst out = {| payload := jsonify [("status", "success");
                                   ("message", "Play request sent")];
               status := 200 |} /\
  snd out = {| current_player := Some p;
               event_queue := emit play_signal p (event_queue s) |} /\
  plays (video_path p) (slot env play_signal p).
Proof.
  intros Hplayer Hbody.
  assert (Hplays : plays (video_path p) (slot env play_signal p))
    by apply play_in_main_thread_plays.
  destruct Hbody as [-> | (d & -> & Hkey)];
    unfold serve, post, play_video; cbn; rewrite Hplayer, ?Hkey; cbn;
    repeat split; apply Hplays.
Qed.

Lemma play_without_path_witness :
  status (fst (serve sample_globals all_present (post "/play" None) started_system))
  = 200%Z.
Proof.
  pose proof (play_without_path sample_globals all_present None
                started_system started_player eq_refl (or_introl eq_refl))
    as (Hresponse & _).
  cbv zeta in Hresponse. rewrite Hresponse. reflexivity.
Defined.

(** [POST /play] with the player initialized and a body that parses to
    [null], a boolean or a number: the membership test raises, so the
    answer is the framework's 500 page, not a JSON error, and nothing is
    emitted. *)
Theorem play_body_not_iterable (g : Globals) (env : Env) (v : Json.json)
    (s : System) (p : VideoPlayer) :
  current_player s = Some p ->
  not_iterable v = true ->
  serve g env (post "/play" (Some v)) s
  = ({| payload := error_page "Internal Server Error"; status := 500 |}, s).
Proof.
  intros Hplayer Hvalue.
  destruct v; try discriminate Hvalue;
    unfold serve, post, play_video; cbn; rewrite Hplayer; reflexivity.
Qed.

Lemma play_body_not_iterable_witness :
  serve sample_globals all_present (post "/play" (Some Json.JNull)) started_system
  = ({| payload := error_page "Internal Server Error"; status := 500 |},
     started_system).
Proof.
  apply (play_body_not_iterable sample_globals all_present Json.JNull
           started_system started_player); reflexivity.
Defined.

(** *** Indexing the listing *)








(** *** Start of the program *)

(** [main] up to the start of the threads.  With an empty default
    directory the first entry cannot be taken ([IndexError]); with the
    default video file missing the constructor raises
    ([FileNotFoundError]); otherwise [current_player] holds a player on
    the first file of the default directory, flag set, nothing loaded yet
    and no signal connected, and the event queue is empty. *)
Theorem main_outcome (g : Globals) (env : Env) :
  match DEFAULT g with
  | [] => main g env = Raise IndexError
  | first :: _ =>
      let path := MAIN_PATH g ++ "/default/" ++ first in
      if path_exists env path
      then exists p,
             main g env = Ok {| current_player := Some p; event_queue := [] |} /\
             default_video p = path /\
             video_path p = path /\
             is_default_video p = true /\
             media_loaded p = false /\
             signals_connected p = false
      else main g env = Raise FileNotFoundError
  end.
Proof.
  unfold main, DEFAULT_VIDEO, Json.index_at.
  destruct (DEFAULT g) as [| first rest]; [reflexivity |].
  cbn. unfold __init__.
  match goal with |- context [path_exists env ?x] =>
    destruct (path_exists env x) end; cbn.
  - eexists. split; [reflexivity |]. repeat split; reflexivity.
  - reflexivity.
Qed.

Lemma main_player (g : Globals) (env : Env) (s : System) :
  main g env = Ok s ->
  exists p, s = {| current_player := Some p; event_queue := [] |} /\
            signals_connected p = false.
Proof.
  unfold main, bind.
  destruct (DEFAULT_VIDEO g) as [path | e]; [| discriminate].
  unfold __init__. destruct (path_exists env path); cbn; [| discriminate].
  intros Hmain. injection Hmain as <-. eexists. split; reflexivity.
Qed.

(** Between [main] storing the player and [vlcApp] connecting the
    signals, requests are answered as usual but have no effect: every
    request leaves the system exactly as it was, and [/resume], [/pause],
    [/stop] and [/close] still answer 200. *)
Theorem requests_before_setup_are_lost (g : Globals) (env env' : Env) (s : System)
    (r : request) (b : option Json.json) :
  main g env = Ok s ->
  snd (serve g env' r s) = s /\
  status (fst (serve g env' (post "/resume" b) s)) = 200%Z /\
  status (fst (serve g env' (post "/pause" b) s)) = 200%Z /\
  status (fst (serve g env' (post "/stop" b) s)) = 200%Z /\
  status (fst (serve g env' (post "/close" b) s)) = 200%Z.
Proof.
  intros Hmain. destruct (main_player g env s Hmain) as (p & -> & Hconn).
  split; [| repeat split; reflexivity].
  unfold serve, make_response, method_not_allowed, not_found.
  repeat match goal with
    | |- context [String.eqb ?a ?b] => destruct (String.eqb a b)
    end;
    destruct (req_method r); cbn [fst snd]; try reflexivity;
    unfold resume, changeVideo, play_video, pause_video, stop_video,
      close_player, test_endpoint, call, play, pause, stop, close,
      change_video, get_json, bind, Json.get, Json.contains, Json.getitem, emit;
    cbn; rewrite ?Hconn;
    repeat (case_scrutinee; rewrite ?Hconn); reflexivity.
Qed.

Lemma requests_before_setup_are_lost_witness :
  snd (serve sample_globals all_present (post "/pause" None) fresh_system)
  = fresh_system.
Proof.
  apply (requests_before_setup_are_lost sample_globals all_present all_present
           fresh_system (post "/pause" None) None).
  reflexivity.
Defined.

(** No request takes a signal off the queue of the GUI thread or
    reorders it: after any request the queue is as before, or as before
    with one signal added at the end. *)
Theorem serve_queue_growth (g : Globals) (env : Env) (r : request) (s : System) :
  event_queue (snd (serve g env r s)) = event_queue s \/
  exists sig,
    event_queue (snd (serve g env r s)) = (event_queue s ++ [sig])%list.
Proof.
  unfold serve, make_response, method_not_allowed, not_found.
  repeat match goal with
    | |- context [String.eqb ?a ?b] => destruct (String.eqb a b)
    end;
    destruct (req_method r); cbn [fst snd]; try (left; reflexivity);
    unfold resume, changeVideo, play_video, pause_video, stop_video,
      close_player, test_endpoint, call, play, pause, stop, close,
      change_video, get_json, bind, Json.get, Json.contains, Json.getitem, emit;
    cbn;
    repeat case_scrutinee;
    first [left; reflexivity | right; eexists; reflexivity].
Qed.

(** *** Requests and their slots together *)

Lemma pause_twice_back (p : VideoPlayer) :
  Vlc.is_playing (mediaplayer p) = true ->
  media_loaded p = true ->
  snd (pause_in_main_thread (snd (pause_in_main_thread p))) = p.
Proof.
  destruct p as [dv vp [m st] a vf ir idv em sc pt].
  unfold pause_in_main_thread, media_loaded. cbn.
  destruct st; cbn; try discriminate. intros _.
  destruct m; cbn; [intros _; reflexivity | discriminate].
Qed.

(** Two [POST /pause] requests to a player that is playing in its event
    loop queue two pause signals, and once the GUI thread has delivered
    both the player is exactly as before the first request. *)
Theorem pause_requests_round_trip (g : Globals) (env env' env'' : Env)
    (b b' : option Json.json) (p : VideoPlayer) :
  running p ->
  Vlc.is_playing (mediaplayer p) = true ->
  let s0 := {| current_player := Some p; event_queue := [] |} in
  let s1 := snd (serve g env (post "/pause" b) s0) in
  let s2 := snd (serve g env' (post "/pause" b') s1) in
  current_player s2 = Some p /\
  event_queue s2 = [pause_signal; pause_signal] /\
  drain env'' (event_queue s2) p = p.
Proof.
  intros Hrunning Hplaying.
  destruct (running_ready p Hrunning) as (Hloaded & Hconn).
  unfold serve, post, pause_video, call, pause, emit; cbn.
  rewrite Hconn. cbn. rewrite ?Hconn. cbn.
  repeat split. apply pause_twice_back; assumption.
Qed.

Lemma pause_requests_round_trip_witness :
  drain all_present [pause_signal; pause_signal] started_player = started_player.
Proof.
  apply (pause_requests_round_trip sample_globals all_present all_present
           all_present None None started_player).
  - apply (running_start all_present all_present loop_path). reflexivity.
  - reflexivity.
Defined.

(** A stop followed by a play (what [/stop] and then [/resume] queue)
    leaves the player playing its current video again, whatever state it
    was in, path and flag unchanged. *)
Theorem stop_then_resume (env : Env) (p : VideoPlayer) :
  let p' := drain env [stop_signal; play_signal] p in
  plays (video_path p) p' /\
  video_path p' = video_path p /\
  is_default_video p' = is_default_video p.
Proof.
  destruct p as [dv vp [m st] a vf ir idv em sc pt].
  unfold plays. destruct st, vf; cbn; repeat split; reflexivity.
Qed.

(** The file named in [POST /play] is checked by the handler and again by
    the GUI thread: if it exists at the request but is gone when the
    signal is delivered, the client has its 200 and the player is left
    exactly as it was. *)
Theorem play_file_deleted_before_delivery (g : Globals) (env env' : Env)
    (d : list (string * Json.json)) (path : string) (s : System) (p : VideoPlayer) :
  current_player s = Some p ->
  Json.lookup "video_path" d = Some (Json.JString path) ->
  path_exists env path = true ->
  path_exists env' path = false ->
  status (fst (serve g env (post "/play" (Some (Json.JObject d))) s)) = 200%Z /\
  slot env' (change_video_signal path) p = p.
Proof.
  intros Hplayer Hkey Hthere Hgone. split.
  - unfold serve, post, play_video; cbn.
    rewrite Hplayer, Hkey. cbn. rewrite Hthere. reflexivity.
  - cbn [slot]. rewrite (change_video_missing env' path p Hgone). reflexivity.
Qed.

Lemma play_file_deleted_before_delivery_witness :
  slot default_deleted (change_video_signal loop_path) clip_a_ended = clip_a_ended.
Proof.
  apply (play_file_deleted_before_delivery sample_globals all_present default_deleted
           [("video_path", Json.JString loop_path)] loop_path
           {| current_player := Some clip_a_ended; event_queue := [] |} clip_a_ended);
    reflexivity.
Defined.

(** [os.path.exists] raises for an integer that does not fit a file
    descriptor, so such a ['video_path'] is answered with the framework's
    500 page, whatever files exist. *)
Lemma play_descriptor_out_of_range (g : Globals) (env : Env) (n : Z)
    (d : list (string * Json.json)) (s : System) (p : VideoPlayer) :
  current_player s = Some p ->
  Json.lookup "video_path" d = Some (Json.JInt n) ->
  (n < INT_MIN \/ INT_MAX < n)%Z ->
  serve g env (post "/play" (Some (Json.JObject d))) s
  = ({| payload := error_page "Internal Server Error"; status := 500 |}, s).
Proof.
  intros Hplayer Hkey Hrange.
  unfold serve, post, play_video; cbn -[INT_MIN INT_MAX].
  rewrite Hplayer, Hkey. cbn -[INT_MIN INT_MAX].
  replace ((INT_MIN <=? n) && (n <=? INT_MAX))%Z%bool with false; [reflexivity |].
  symmetry. apply andb_false_iff.
  destruct Hrange; [left; apply Z.leb_gt | right; apply Z.leb_gt]; assumption.
Qed.
